(** * Ten-pin bowling scorer: a shallow embedding of [bowling_game.py]

    The class [BowlingGame] keeps the list of rolls and a roll counter.
    Its methods read the list through bounds-checked helpers, except for
    one branch of [score].  Every method is embedded as a computation in a
    small state-and-exception monad over the object's fields, so that both
    "raises" and "modifies" are statements about the embedding. *)

From Stdlib Require Import String ZArith List Bool Lia.
Import ListNotations.
Local Open Scope Z_scope.

(** ** Python values and exceptions *)

(** The values a caller can pass to [roll].  [bool] is a subclass of [int]
    in Python, so [isinstance(True, int)] holds; a float is a mantissa and a
    binary exponent ([3.5] is [VFloat 7 (-1)]). *)
Inductive pyval : Type :=
| VInt (n : Z)
| VBool (b : bool)
| VFloat (m e : Z)
| VStr (s : string)
| VNone.

(** [isinstance(v, int)] *)
Definition isinstance_int (v : pyval) : bool :=
  match v with
  | VInt _ | VBool _ => true
  | _ => false
  end.

(** The integer an [int] instance denotes in comparisons, sums and list
    equality ([True == 1], [False == 0]); [None] for every other value. *)
Definition int_value (v : pyval) : option Z :=
  match v with
  | VInt n => Some n
  | VBool b => Some (Z.b2z b)
  | _ => None
  end.

Inductive exn : Type := ValueError | IndexError.

Inductive result (A : Type) : Type :=
| Ok (a : A)
| Raise (e : exn).
Arguments Ok {A} a.
Arguments Raise {A} e.

(** ** The object and the monad of its methods *)

Record BowlingGame : Type := mkGame {
  rolls : list Z;
  current_roll : Z
}.

(** A method body: from the object's fields to an outcome and the fields
    as the body left them (an exception keeps the mutations done so far). *)
Definition M (A : Type) : Type := BowlingGame -> result A * BowlingGame.

Definition ret {A} (a : A) : M A := fun g => (Ok a, g).

Definition raise {A} (e : exn) : M A := fun g => (Raise e, g).

Definition bind {A B} (m : M A) (k : A -> M B) : M B :=
  fun g =>
    match m g with
    | (Ok a, g') => k a g'
    | (Raise e, g') => (Raise e, g')
    end.

Notation "x <- m ;; k" := (bind m (fun x => k))
  (at level 61, m at next level, right associativity).
Notation "m ;;; k" := (bind m (fun _ => k))
  (at level 61, right associativity).

(** [len(self.rolls)] *)
Definition len_rolls : M nat := fun g => (Ok (length (rolls g)), g).

(** [self.rolls[i]] for an index [i >= 0]; the cursors of this class start
    at 0 and only grow, so Python's negative indices never occur. *)
Definition rolls_at (i : nat) : M Z :=
  fun g =>
    match nth_error (rolls g) i with
    | Some r => (Ok r, g)
    | None => (Raise IndexError, g)
    end.

(** [self.rolls.append(n)] *)
Definition rolls_append (n : Z) : M unit :=
  fun g => (Ok tt, mkGame (rolls g ++ [n]) (current_roll g)).

(** [self.current_roll += 1] *)
Definition current_roll_incr : M unit :=
  fun g => (Ok tt, mkGame (rolls g) (current_roll g + 1)).

(** The outcome and the final fields of a call. *)
Definition outcome {A} (m : M A) (g : BowlingGame) : result A := fst (m g).
Definition fields_after {A} (m : M A) (g : BowlingGame) : BowlingGame := snd (m g).

(** ** The methods *)

(** [__init__] *)
Definition init : BowlingGame := mkGame [] 0.

(** [roll]: the guard is a short-circuit [or], so the comparisons are only
    evaluated on an [int] instance. *)
Definition roll (pins : pyval) : M unit :=
  match int_value pins with
  | None => raise ValueError
  | Some n =>
      if (n <? 0) || (n >? 10) then raise ValueError
      else rolls_append n ;;; current_roll_incr
  end.

Definition _is_strike (frame_index : nat) : M bool :=
  n <- len_rolls ;;
  if (frame_index <? n)%nat then
    r <- rolls_at frame_index ;; ret (r =? 10)
  else ret false.

Definition _is_spare (frame_index : nat) : M bool :=
  n <- len_rolls ;;
  if (frame_index + 1 <? n)%nat then
    a <- rolls_at frame_index ;;
    b <- rolls_at (frame_index + 1) ;;
    ret (a + b =? 10)
  else ret false.

Definition _strike_bonus (frame_index : nat) : M Z :=
  n <- len_rolls ;;
  if (frame_index + 2 <? n)%nat then
    a <- rolls_at (frame_index + 1) ;;
    b <- rolls_at (frame_index + 2) ;;
    ret (a + b)
  else
    n <- len_rolls ;;
    if (frame_index + 1 <? n)%nat then rolls_at (frame_index + 1)
    else ret 0.

Definition _spare_bonus (frame_index : nat) : M Z :=
  n <- len_rolls ;;
  if (frame_index + 2 <? n)%nat then rolls_at (frame_index + 2)
  else ret 0.

Definition _score_tenth_frame (frame_index : nat) : M Z :=
  strike <- _is_strike frame_index ;;
  if strike then
    n <- len_rolls ;;
    if (frame_index + 2 <? n)%nat then
      a <- rolls_at (frame_index + 1) ;;
      b <- rolls_at (frame_index + 2) ;;
      ret (10 + a + b)
    else
      n <- len_rolls ;;
      if (frame_index + 1 <? n)%nat then
        a <- rolls_at (frame_index + 1) ;; ret (10 + a)
      else ret 10
  else
    spare <- _is_spare frame_index ;;
    if spare then
      n <- len_rolls ;;
      if (frame_index + 2 <? n)%nat then
        a <- rolls_at (frame_index + 2) ;; ret (10 + a)
      else ret 10
    else
      n <- len_rolls ;;
      if (frame_index + 1 <? n)%nat then
        a <- rolls_at frame_index ;;
        b <- rolls_at (frame_index + 1) ;;
        ret (a + b)
      else
        n <- len_rolls ;;
        if (frame_index <? n)%nat then rolls_at frame_index
        else ret 0.

(** The loop [for frame in range(9)] of [score], on the frames still to
    do, carrying the locals [score] and [frame_index]. *)
Fixpoint score_frames (frames : nat) (score : Z) (frame_index : nat)
  : M (Z * nat) :=
  match frames with
  | O => ret (score, frame_index)
  | S frames' =>
      strike <- _is_strike frame_index ;;
      if strike then
        b <- _strike_bonus frame_index ;;
        score_frames frames' (score + (10 + b)) (frame_index + 1)
      else
        spare <- _is_spare frame_index ;;
        if spare then
          b <- _spare_bonus frame_index ;;
          score_frames frames' (score + (10 + b)) (frame_index + 2)
        else
          a <- rolls_at frame_index ;;
          b <- rolls_at (frame_index + 1) ;;
          score_frames frames' (score + (a + b)) (frame_index + 2)
  end.

Definition score : M Z :=
  st <- score_frames 9 0 0%nat ;;
  t <- _score_tenth_frame (snd st) ;;
  ret (fst st + t).

(** The loop of [get_frame_scores], carrying [frame_scores] and
    [frame_index]. *)
Fixpoint frame_scores_loop (frames : nat) (frame_scores : list Z)
    (frame_index : nat) : M (list Z * nat) :=
  match frames with
  | O => ret (frame_scores, frame_index)
  | S frames' =>
      strike <- _is_strike frame_index ;;
      if strike then
        b <- _strike_bonus frame_index ;;
        frame_scores_loop frames' (frame_scores ++ [10 + b]) (frame_index + 1)
      else
        spare <- _is_spare frame_index ;;
        if spare then
          b <- _spare_bonus frame_index ;;
          frame_scores_loop frames' (frame_scores ++ [10 + b]) (frame_index + 2)
        else
          n <- len_rolls ;;
          if (frame_index + 1 <? n)%nat then
            a <- rolls_at frame_index ;;
            b <- rolls_at (frame_index + 1) ;;
            frame_scores_loop frames' (frame_scores ++ [a + b]) (frame_index + 2)
          else
            n <- len_rolls ;;
            v <- (if (frame_index <? n)%nat then rolls_at frame_index else ret 0) ;;
            frame_scores_loop frames' (frame_scores ++ [v]) (frame_index + 2)
  end.

Definition get_frame_scores : M (list Z) :=
  st <- frame_scores_loop 9 [] 0%nat ;;
  t <- _score_tenth_frame (snd st) ;;
  ret (fst st ++ [t]).

(** The loop of [is_game_complete]: [None] when the body executed
    [return False], otherwise the cursor after the last frame.  In the
    method itself the [or] of the two tests is short-circuit. *)
Fixpoint complete_frames (frames : nat) (frame_index : nat) : M (option nat) :=
  match frames with
  | O => ret (Some frame_index)
  | S frames' =>
      n <- len_rolls ;;
      if (n <=? frame_index)%nat then ret None
      else
        strike <- _is_strike frame_index ;;
        if strike then complete_frames frames' (frame_index + 1)
        else
          n <- len_rolls ;;
          if (n <=? frame_index + 1)%nat then ret None
          else complete_frames frames' (frame_index + 2)
  end.

Definition is_game_complete : M bool :=
  st <- complete_frames 9 0%nat ;;
  match st with
  | None => ret false
  | Some frame_index =>
      n <- len_rolls ;;
      let rolls_in_tenth := Z.of_nat n - Z.of_nat frame_index in
      if rolls_in_tenth <? 2 then ret false
      else
        strike <- _is_strike frame_index ;;
        bonus <- (if strike then ret true else _is_spare frame_index) ;;
        if bonus then ret (rolls_in_tenth >=? 3)
        else ret (rolls_in_tenth >=? 2)
  end.

(** [n] successive calls [roll(pins)]. *)
Fixpoint roll_times (n : nat) (pins : pyval) : M unit :=
  match n with
  | O => ret tt
  | S n' => roll pins ;;; roll_times n' pins
  end.

(** ** Reading a roll list with absent rolls counted as zero

    Closed forms over the roll list alone.  They are not the embedding:
    each method above is proved to compute the corresponding one. *)

Definition sum (l : list Z) : Z := fold_right Z.add 0 l.

Section Reading.

Variable rs : list Z.

Definition roll_or_zero (i : nat) : Z :=
  match nth_error rs i with
  | Some r => r
  | None => 0
  end.

Definition strike_at (i : nat) : bool :=
  match nth_error rs i with
  | Some r => r =? 10
  | None => false
  end.

Definition spare_at (i : nat) : bool :=
  match nth_error rs i, nth_error rs (i + 1) with
  | Some a, Some b => a + b =? 10
  | _, _ => false
  end.

(** What a frame starting at cursor [i] is worth. *)
Definition frame_value (i : nat) : Z :=
  if strike_at i then 10 + roll_or_zero (i + 1) + roll_or_zero (i + 2)
  else if spare_at i then 10 + roll_or_zero (i + 2)
  else roll_or_zero i + roll_or_zero (i + 1).

(** The cursor advance rule. *)
Definition frame_next (i : nat) : nat :=
  if strike_at i then (i + 1)%nat else (i + 2)%nat.

Fixpoint cursor_after (frames i : nat) : nat :=
  match frames with
  | O => i
  | S frames' => cursor_after frames' (frame_next i)
  end.

Fixpoint frame_values (frames i : nat) : list Z :=
  match frames with
  | O => []
  | S frames' => frame_value i :: frame_values frames' (frame_next i)
  end.

(** Every one of the next [frames] frames has the rolls it needs: its
    first roll, and its second one unless the first is a strike. *)
Fixpoint frames_present (frames i : nat) : bool :=
  match frames with
  | O => true
  | S frames' =>
      (strike_at i || (i + 1 <? length rs)%nat)
      && frames_present frames' (frame_next i)
  end.

Definition rolls_in_tenth : Z :=
  Z.of_nat (length rs) - Z.of_nat (cursor_after 9 0).

Definition game_complete : bool :=
  frames_present 9 0
  && (2 <=? rolls_in_tenth)
  && (if strike_at (cursor_after 9 0) || spare_at (cursor_after 9 0)
      then 3 <=? rolls_in_tenth else true).

(** The frame at cursor [c] needs a roll that does not exist: its first
    roll, or, when that is not a strike, its second one. *)
Definition frame_lacks_roll (c : nat) : bool :=
  (length rs <=? c)%nat
  || (negb (strike_at c) && (length rs <=? c + 1)%nat).

End Reading.

(** [current_roll == len(rolls)] *)
Definition roll_count_inv (g : BowlingGame) : Prop :=
  current_roll g = Z.of_nat (length (rolls g)).

(** Every recorded roll is a pin count 0..10. *)
Definition valid_rolls (rs : list Z) : Prop :=
  Forall (fun r => 0 <= r <= 10) rs.

(** ** Facts about reading a roll list *)

Section ReadingFacts.

Variable rs : list Z.

Lemma nth_error_present i :
  (i < length rs)%nat -> nth_error rs i = Some (roll_or_zero rs i).
Proof.
  intros H. unfold roll_or_zero.
  destruct (nth_error rs i) eqn:E; [reflexivity|].
  apply nth_error_None in E. lia.
Qed.

Lemma nth_error_absent i :
  (length rs <= i)%nat -> nth_error rs i = None.
Proof. apply nth_error_None. Qed.

Lemma roll_or_zero_absent i :
  (length rs <= i)%nat -> roll_or_zero rs i = 0.
Proof.
  intros H. unfold roll_or_zero. now rewrite nth_error_absent.
Qed.

Lemma strike_at_length i : strike_at rs i = true -> (i < length rs)%nat.
Proof.
  unfold strike_at. destruct (nth_error rs i) eqn:E; [|discriminate].
  intros _. apply nth_error_Some. congruence.
Qed.

Lemma spare_at_length i : spare_at rs i = true -> (i + 1 < length rs)%nat.
Proof.
  unfold spare_at. destruct (nth_error rs i); [|discriminate].
  destruct (nth_error rs (i + 1)) eqn:E; [|discriminate].
  intros _. apply nth_error_Some. congruence.
Qed.

Lemma frame_values_length frames i :
  length (frame_values rs frames i) = frames.
Proof.
  revert i. induction frames as [|n IH]; intros i; simpl; [reflexivity|].
  now rewrite IH.
Qed.

End ReadingFacts.

(** ** What each method computes *)

#[local] Arguments Z.add _ _ : simpl never.
#[local] Arguments Z.sub _ _ : simpl never.
#[local] Arguments Z.of_nat _ : simpl never.

Lemma bind_run {A B} (m : M A) (k : A -> M B) g a g' :
  m g = (Ok a, g') -> bind m k g = k a g'.
Proof. intros H. unfold bind. now rewrite H. Qed.

Lemma bind_raise {A B} (m : M A) (k : A -> M B) g e g' :
  m g = (Raise e, g') -> bind m k g = (Raise e, g').
Proof. intros H. unfold bind. now rewrite H. Qed.

Lemma len_rolls_run g : len_rolls g = (Ok (length (rolls g)), g).
Proof. reflexivity. Qed.

Lemma rolls_at_present g i :
  (i < length (rolls g))%nat ->
  rolls_at i g = (Ok (roll_or_zero (rolls g) i), g).
Proof.
  intros H. unfold rolls_at. now rewrite (nth_error_present _ _ H).
Qed.

Lemma rolls_at_absent g i :
  (length (rolls g) <= i)%nat -> rolls_at i g = (Raise IndexError, g).
Proof.
  intros H. unfold rolls_at. now rewrite (nth_error_absent _ _ H).
Qed.

(** Runs a method body one statement at a time: a length test is decided,
    then each read is resolved by the bound the test established. *)
Ltac run_len :=
  match goal with
  | |- context [(?a <? ?b)%nat] => destruct (Nat.ltb_spec a b)
  | |- context [(?a <=? ?b)%nat] => destruct (Nat.leb_spec a b)
  end.

Ltac run_step :=
  first
    [ erewrite bind_run by (apply len_rolls_run)
    | erewrite bind_run by (apply rolls_at_present; lia)
    | erewrite bind_run by (unfold ret; reflexivity)
    | rewrite rolls_at_present by lia
    | run_len ].

Ltac run := repeat run_step; unfold ret.

Lemma is_strike_run g i : _is_strike i g = (Ok (strike_at (rolls g) i), g).
Proof.
  unfold _is_strike, strike_at. run.
  - now rewrite (nth_error_present _ _ H).
  - now rewrite (nth_error_absent _ _ H).
Qed.

Lemma is_spare_run g i : _is_spare i g = (Ok (spare_at (rolls g) i), g).
Proof.
  unfold _is_spare, spare_at. run.
  - rewrite !nth_error_present by lia. reflexivity.
  - rewrite (nth_error_absent _ (i + 1)) by lia.
    now destruct (nth_error (rolls g) i).
Qed.

Lemma strike_bonus_run g i :
  _strike_bonus i g
  = (Ok (roll_or_zero (rolls g) (i + 1) + roll_or_zero (rolls g) (i + 2)), g).
Proof.
  unfold _strike_bonus. run.
  - reflexivity.
  - rewrite (roll_or_zero_absent _ (i + 2)) by lia. now rewrite Z.add_0_r.
  - now rewrite !roll_or_zero_absent by lia.
Qed.

Lemma spare_bonus_run g i :
  _spare_bonus i g = (Ok (roll_or_zero (rolls g) (i + 2)), g).
Proof.
  unfold _spare_bonus. run.
  - reflexivity.
  - now rewrite roll_or_zero_absent by lia.
Qed.

Lemma score_tenth_frame_run g i :
  _score_tenth_frame i g = (Ok (frame_value (rolls g) i), g).
Proof.
  unfold _score_tenth_frame, frame_value.
  rewrite (bind_run _ _ _ _ _ (is_strike_run g i)).
  destruct (strike_at (rolls g) i) eqn:Hs.
  - run.
    + reflexivity.
    + rewrite (roll_or_zero_absent _ (i + 2)) by lia. now rewrite Z.add_0_r.
    + now rewrite !roll_or_zero_absent by lia.
  - rewrite (bind_run _ _ _ _ _ (is_spare_run g i)).
    destruct (spare_at (rolls g) i) eqn:Hp.
    + run.
      * reflexivity.
      * now rewrite roll_or_zero_absent by lia.
    + run.
      * reflexivity.
      * rewrite (roll_or_zero_absent _ (i + 1)) by lia. now rewrite Z.add_0_r.
      * now rewrite !roll_or_zero_absent by lia.
Qed.

Lemma frame_scores_loop_run g frames : forall acc i,
  frame_scores_loop frames acc i g
  = (Ok (acc ++ frame_values (rolls g) frames i,
         cursor_after (rolls g) frames i), g).
Proof.
  induction frames as [|n IH]; intros acc i; simpl.
  - now rewrite app_nil_r.
  - unfold frame_value, frame_next.
    rewrite (bind_run _ _ _ _ _ (is_strike_run g i)).
    destruct (strike_at (rolls g) i) eqn:Hs.
    + rewrite (bind_run _ _ _ _ _ (strike_bonus_run g i)), IH.
      now rewrite <- app_assoc, Z.add_assoc.
    + rewrite (bind_run _ _ _ _ _ (is_spare_run g i)).
      destruct (spare_at (rolls g) i) eqn:Hp.
      * rewrite (bind_run _ _ _ _ _ (spare_bonus_run g i)), IH.
        now rewrite <- app_assoc.
      * run; rewrite IH, <- app_assoc; simpl; try reflexivity.
        -- rewrite (roll_or_zero_absent _ (i + 1)) by lia.
           now rewrite Z.add_0_r.
        -- now rewrite !roll_or_zero_absent by lia.
Qed.

Lemma get_frame_scores_run g :
  get_frame_scores g
  = (Ok (frame_values (rolls g) 9 0
         ++ [frame_value (rolls g) (cursor_after (rolls g) 9 0)]), g).
Proof.
  unfold get_frame_scores.
  rewrite (bind_run _ _ _ _ _ (frame_scores_loop_run g 9 [] 0%nat)).
  cbv [snd fst].
  rewrite (bind_run _ _ _ _ _ (score_tenth_frame_run g _)).
  reflexivity.
Qed.

Lemma score_frames_run g frames : forall acc i,
  score_frames frames acc i g
  = if frames_present (rolls g) frames i
    then (Ok (acc + sum (frame_values (rolls g) frames i),
              cursor_after (rolls g) frames i), g)
    else (Raise IndexError, g).
Proof.
  induction frames as [|n IH]; intros acc i; simpl.
  - now rewrite Z.add_0_r.
  - unfold frame_value, frame_next.
    rewrite (bind_run _ _ _ _ _ (is_strike_run g i)).
    destruct (strike_at (rolls g) i) eqn:Hs; simpl.
    + rewrite (bind_run _ _ _ _ _ (strike_bonus_run g i)), IH.
      destruct (frames_present (rolls g) n (i + 1)); [|reflexivity].
      do 3 f_equal. lia.
    + rewrite (bind_run _ _ _ _ _ (is_spare_run g i)).
      destruct (spare_at (rolls g) i) eqn:Hp.
      * apply spare_at_length in Hp as Hlen.
        destruct (Nat.ltb_spec (i + 1) (length (rolls g))); [|lia]. simpl.
        rewrite (bind_run _ _ _ _ _ (spare_bonus_run g i)), IH.
        destruct (frames_present (rolls g) n (i + 2)); [|reflexivity].
        do 3 f_equal. lia.
      * destruct (Nat.ltb_spec (i + 1) (length (rolls g))); simpl.
        -- run. rewrite IH.
           destruct (frames_present (rolls g) n (i + 2)); [|reflexivity].
           do 3 f_equal. lia.
        -- destruct (Nat.ltb_spec i (length (rolls g))).
           ++ erewrite bind_run by (apply rolls_at_present; lia).
              apply bind_raise, rolls_at_absent. lia.
           ++ apply bind_raise, rolls_at_absent. lia.
Qed.

Lemma score_run g :
  score g
  = if frames_present (rolls g) 9 0
    then (Ok (sum (frame_values (rolls g) 9 0)
              + frame_value (rolls g) (cursor_after (rolls g) 9 0)), g)
    else (Raise IndexError, g).
Proof.
  unfold score, bind. rewrite score_frames_run.
  destruct (frames_present (rolls g) 9 0); [|reflexivity].
  cbv [snd fst]. rewrite score_tenth_frame_run. reflexivity.
Qed.

Lemma complete_frames_run g frames : forall i,
  complete_frames frames i g
  = (Ok (if frames_present (rolls g) frames i
         then Some (cursor_after (rolls g) frames i) else None), g).
Proof.
  induction frames as [|n IH]; intros i; simpl; [reflexivity|].
  unfold frame_next.
  rewrite (bind_run _ _ _ _ _ (len_rolls_run g)).
  destruct (Nat.leb_spec (length (rolls g)) i) as [Hle|Hlt].
  - destruct (strike_at (rolls g) i) eqn:Hs.
    + apply strike_at_length in Hs. lia.
    + destruct (Nat.ltb_spec (i + 1) (length (rolls g))); [lia|reflexivity].
  - rewrite (bind_run _ _ _ _ _ (is_strike_run g i)).
    destruct (strike_at (rolls g) i) eqn:Hs; simpl; [apply IH|].
    rewrite (bind_run _ _ _ _ _ (len_rolls_run g)).
    destruct (Nat.leb_spec (length (rolls g)) (i + 1));
      destruct (Nat.ltb_spec (i + 1) (length (rolls g))); try lia; simpl.
    + reflexivity.
    + apply IH.
Qed.

Lemma is_game_complete_run g :
  is_game_complete g = (Ok (game_complete (rolls g)), g).
Proof.
  unfold is_game_complete, game_complete, rolls_in_tenth.
  rewrite (bind_run _ _ _ _ _ (complete_frames_run g 9 0%nat)).
  destruct (frames_present (rolls g) 9 0); [|reflexivity].
  rewrite (bind_run _ _ _ _ _ (len_rolls_run g)).
  set (c := cursor_after (rolls g) 9 0).
  set (r := Z.of_nat (length (rolls g)) - Z.of_nat c).
  rewrite andb_true_l.
  destruct (Z.ltb_spec r 2); destruct (Z.leb_spec 2 r); try lia;
    [reflexivity|].
  rewrite (bind_run _ _ _ _ _ (is_strike_run g c)).
  destruct (strike_at (rolls g) c); cbv [orb].
  - unfold bind, ret. now rewrite Z.geb_leb.
  - rewrite (bind_run _ _ _ _ _ (is_spare_run g c)).
    destruct (spare_at (rolls g) c); unfold ret.
    + now rewrite Z.geb_leb.
    + rewrite Z.geb_leb. destruct (Z.leb_spec 2 r); [reflexivity|lia].
Qed.

Lemma roll_run pins g :
  roll pins g
  = match int_value pins with
    | Some n =>
        if (0 <=? n) && (n <=? 10)
        then (Ok tt, mkGame (rolls g ++ [n]) (current_roll g + 1))
        else (Raise ValueError, g)
    | None => (Raise ValueError, g)
    end.
Proof.
  unfold roll. destruct (int_value pins) as [n|]; [|reflexivity].
  rewrite Z.gtb_ltb.
  destruct (Z.ltb_spec n 0); destruct (Z.leb_spec 0 n); try lia;
    destruct (Z.ltb_spec 10 n); destruct (Z.leb_spec n 10); try lia;
    reflexivity.
Qed.

Lemma isinstance_int_value pins :
  isinstance_int pins = false <-> int_value pins = None.
Proof. destruct pins; simpl; split; congruence. Qed.

Lemma sum_app l1 l2 : sum (l1 ++ l2) = sum l1 + sum l2.
Proof.
  induction l1 as [|a l1 IH]; simpl; [reflexivity|].
  unfold sum in *. simpl. rewrite IH. lia.
Qed.

(** ** Whole games *)

(** C1: twelve calls [roll(10)] on a fresh game give a score of 300 and a
    complete game, and after any smaller number [n] of calls [roll(10)] the
    game is not complete. *)
Theorem perfect_game (n : nat) (Hn : (n < 12)%nat) :
  outcome (roll_times 12 (VInt 10) ;;; score) init = Ok 300
  /\ outcome (roll_times 12 (VInt 10) ;;; is_game_complete) init = Ok true
  /\ outcome (roll_times n (VInt 10) ;;; is_game_complete) init = Ok false.
Proof.
  split; [reflexivity|]. split; [reflexivity|].
  do 12 (destruct n as [|n]; [reflexivity|]). lia.
Qed.

Lemma perfect_game_witness :
  outcome (roll_times 12 (VInt 10) ;;; score) init = Ok 300
  /\ outcome (roll_times 12 (VInt 10) ;;; is_game_complete) init = Ok true
  /\ outcome (roll_times 11 (VInt 10) ;;; is_game_complete) init = Ok false.
Proof. apply (perfect_game 11). lia. Defined.

(** C7: twenty-one calls [roll(5)] on a fresh game give a score of 150. *)
Theorem all_spares_game :
  outcome (roll_times 21 (VInt 5) ;;; score) init = Ok 150.
Proof. reflexivity. Qed.

(** ** [roll] *)

(** C3: [roll(pins)] raises [ValueError] exactly when [pins] is not an
    [int] instance or its value is outside 0..10; a raising call leaves the
    fields as they were, and any other call returns normally having
    appended exactly [pins] to [rolls]. *)
Theorem roll_raises_iff_invalid (pins : pyval) (g : BowlingGame) :
  (outcome (roll pins) g = Raise ValueError
   <-> isinstance_int pins = false
       \/ exists n, int_value pins = Some n /\ ~ 0 <= n <= 10)
  /\ (outcome (roll pins) g = Raise ValueError ->
      fields_after (roll pins) g = g)
  /\ (outcome (roll pins) g <> Raise ValueError ->
      exists n, int_value pins = Some n
                /\ outcome (roll pins) g = Ok tt
                /\ rolls (fields_after (roll pins) g) = rolls g ++ [n]).
Proof.
  unfold outcome, fields_after. rewrite roll_run.
  destruct (int_value pins) as [n|] eqn:Hv.
  - assert (Hint : isinstance_int pins <> false).
    { intros H. apply isinstance_int_value in H. congruence. }
    destruct (Z.leb_spec 0 n); destruct (Z.leb_spec n 10); simpl.
    + split; [split|split].
      * discriminate.
      * intros [H1|[m [Hm H1]]]; [contradiction|].
        injection Hm as <-. lia.
      * discriminate.
      * intros _. exists n. repeat split.
    + split; [split|split]; try reflexivity; try congruence.
      intros _. right. exists n. split; [reflexivity|lia].
    + split; [split|split]; try reflexivity; try congruence.
      intros _. right. exists n. split; [reflexivity|lia].
    + split; [split|split]; try reflexivity; try congruence.
      intros _. right. exists n. split; [reflexivity|lia].
  - simpl. split; [split|split]; try reflexivity; try congruence.
    intros _. left. now apply isinstance_int_value.
Qed.

Lemma roll_raises_iff_invalid_witness :
  fields_after (roll (VFloat 7 (-1))) init = init
  /\ fields_after (roll (VInt 11)) init = init
  /\ fields_after (roll (VInt (-1))) init = init.
Proof.
  split; [|split].
  - apply (roll_raises_iff_invalid (VFloat 7 (-1)) init). reflexivity.
  - apply (roll_raises_iff_invalid (VInt 11) init). reflexivity.
  - apply (roll_raises_iff_invalid (VInt (-1)) init). reflexivity.
Defined.

(** ** [score] *)

(** [score] raises exactly when one of the first nine frames lacks a roll;
    otherwise it returns the sum of the ten frame values. *)
Lemma score_raises_iff g :
  outcome score g = Raise IndexError <-> frames_present (rolls g) 9 0 = false.
Proof.
  unfold outcome. rewrite score_run.
  destruct (frames_present (rolls g) 9 0); simpl; split; congruence.
Qed.

(** C2 (fails on the code): on a fresh game, and on a game of the single
    roll 3, [score] raises [IndexError]; the claim says it never raises. *)
Theorem score_raises_on_incomplete_game :
  outcome score init = Raise IndexError
  /\ outcome (roll (VInt 3) ;;; score) init = Raise IndexError
  /\ outcome (roll (VInt 3) ;;; get_frame_scores) init
     = Ok [3; 0; 0; 0; 0; 0; 0; 0; 0; 0].
Proof. repeat split. Qed.

(** ** [is_game_complete] *)

Lemma frame_lacks_roll_step rs c :
  strike_at rs c || (c + 1 <? length rs)%nat = negb (frame_lacks_roll rs c).
Proof.
  unfold frame_lacks_roll.
  destruct (strike_at rs c) eqn:Hs.
  - apply strike_at_length in Hs.
    destruct (Nat.leb_spec (length rs) c); [lia|reflexivity].
  - destruct (Nat.ltb_spec (c + 1) (length rs));
      destruct (Nat.leb_spec (length rs) c);
      destruct (Nat.leb_spec (length rs) (c + 1)); try lia; reflexivity.
Qed.

Lemma frames_present_false rs frames : forall i,
  frames_present rs frames i = false
  <-> exists k, (k < frames)%nat
                /\ frame_lacks_roll rs (cursor_after rs k i) = true.
Proof.
  induction frames as [|n IH]; intros i.
  - simpl. split; [discriminate|]. intros [k [Hk _]]. lia.
  - cbn [frames_present]. rewrite frame_lacks_roll_step, andb_false_iff, IH.
    rewrite negb_false_iff. split.
    + intros [H|[k [Hk H]]].
      * exists 0%nat. split; [lia|exact H].
      * exists (S k). split; [lia|exact H].
    + intros [[|k] [Hk H]].
      * left. exact H.
      * right. exists k. split; [lia|exact H].
Qed.

Lemma frames_present_true rs frames i :
  frames_present rs frames i = true
  <-> forall k, (k < frames)%nat
                -> frame_lacks_roll rs (cursor_after rs k i) = false.
Proof.
  split.
  - intros H k Hk.
    destruct (frame_lacks_roll rs (cursor_after rs k i)) eqn:E;
      [|reflexivity].
    assert (frames_present rs frames i = false)
      by (apply frames_present_false; eauto).
    congruence.
  - intros H. destruct (frames_present rs frames i) eqn:E; [reflexivity|].
    apply frames_present_false in E as [k [Hk E]].
    rewrite (H k Hk) in E. discriminate.
Qed.

(** C4: [is_game_complete] returns a boolean [b] and changes nothing.
    [b] is false if one of frames 1-9, found by advancing the cursor by 1
    after a strike and by 2 otherwise, needs a roll that does not exist.
    Otherwise, with [r] rolls left from the cursor [c] of the tenth frame:
    [b] is false when [r < 2]; for a strike or a spare at [c], [b] is true
    exactly when [r >= 3]; for an open tenth frame exactly when [r >= 2]. *)
Theorem is_game_complete_cases (g : BowlingGame) :
  let rs := rolls g in
  let c := cursor_after rs 9 0 in
  let r := Z.of_nat (length rs) - Z.of_nat c in
  exists b,
    is_game_complete g = (Ok b, g)
    /\ ((exists k, (k < 9)%nat
                   /\ frame_lacks_roll rs (cursor_after rs k 0) = true)
        -> b = false)
    /\ ((forall k, (k < 9)%nat
                   -> frame_lacks_roll rs (cursor_after rs k 0) = false)
        -> (r < 2 -> b = false)
           /\ (strike_at rs c = true \/ spare_at rs c = true
               -> (b = true <-> 3 <= r))
           /\ (strike_at rs c = false -> spare_at rs c = false
               -> (b = true <-> 2 <= r))).
Proof.
  intros rs c r. exists (game_complete rs).
  split; [apply is_game_complete_run|].
  unfold game_complete, rolls_in_tenth. fold c. fold r. split.
  - intros H. apply frames_present_false in H. now rewrite H.
  - intros H. apply frames_present_true in H. rewrite H, andb_true_l.
    split; [|split].
    + intros Hr. destruct (Z.leb_spec 2 r); [lia|reflexivity].
    + intros Hs.
      assert (E : strike_at rs c || spare_at rs c = true)
        by (apply orb_true_iff; exact Hs).
      rewrite E, andb_true_iff, !Z.leb_le. lia.
    + intros Hs Hp. rewrite Hs, Hp. simpl.
      rewrite andb_true_r. apply Z.leb_le.
Qed.

(** ** The tenth frame *)

Lemma strike_at_iff rs i : strike_at rs i = true <-> nth_error rs i = Some 10.
Proof.
  unfold strike_at. destruct (nth_error rs i) as [r|]; split;
    try discriminate.
  - intros H. apply Z.eqb_eq in H. now subst.
  - intros H. injection H as ->. reflexivity.
Qed.

Lemma spare_at_iff rs i :
  spare_at rs i = true
  <-> exists a b, nth_error rs i = Some a /\ nth_error rs (i + 1) = Some b
                  /\ a + b = 10.
Proof.
  unfold spare_at. split.
  - destruct (nth_error rs i) as [a|]; [|discriminate].
    destruct (nth_error rs (i + 1)) as [b|]; [|discriminate].
    intros H. apply Z.eqb_eq in H. now exists a, b.
  - intros [a [b [-> [-> H]]]]. now apply Z.eqb_eq.
Qed.

Lemma roll_or_zero_some rs i r : nth_error rs i = Some r -> roll_or_zero rs i = r.
Proof. intros H. unfold roll_or_zero. now rewrite H. Qed.

Lemma roll_or_zero_none rs i : nth_error rs i = None -> roll_or_zero rs i = 0.
Proof. intros H. unfold roll_or_zero. now rewrite H. Qed.

Lemma nth_error_none_next (rs : list Z) i :
  nth_error rs i = None -> nth_error rs (i + 1) = None.
Proof. rewrite !nth_error_None. lia. Qed.

(** C6: [_score_tenth_frame(frame_index)] returns a value [v] and changes
    nothing.  For a strike at [i], [v] is 10 plus the next two rolls that
    exist; for a spare at [i], 10 plus the roll at [i+2] if it exists;
    otherwise the sum of the rolls at [i] and [i+1] that exist. *)
Theorem score_tenth_frame_cases (g : BowlingGame) (i : nat) :
  let rs := rolls g in
  exists v,
    _score_tenth_frame i g = (Ok v, g)
    /\ (nth_error rs i = Some 10 ->
        (forall r1 r2, nth_error rs (i + 1) = Some r1 ->
                       nth_error rs (i + 2) = Some r2 -> v = 10 + r1 + r2)
        /\ (forall r1, nth_error rs (i + 1) = Some r1 ->
                       nth_error rs (i + 2) = None -> v = 10 + r1)
        /\ (nth_error rs (i + 1) = None -> v = 10))
    /\ ((exists a b, nth_error rs i = Some a /\ nth_error rs (i + 1) = Some b
                     /\ a + b = 10) ->
        (forall r, nth_error rs (i + 2) = Some r -> v = 10 + r)
        /\ (nth_error rs (i + 2) = None -> v = 10))
    /\ (nth_error rs i <> Some 10 ->
        ~ (exists a b, nth_error rs i = Some a /\ nth_error rs (i + 1) = Some b
                       /\ a + b = 10) ->
        (forall a b, nth_error rs i = Some a ->
                     nth_error rs (i + 1) = Some b -> v = a + b)
        /\ (forall a, nth_error rs i = Some a ->
                      nth_error rs (i + 1) = None -> v = a)
        /\ (nth_error rs i = None -> v = 0)).
Proof.
  intros rs. exists (frame_value rs i).
  split; [apply score_tenth_frame_run|].
  unfold frame_value. split; [|split].
  - intros Hs. apply strike_at_iff in Hs as Hs'. rewrite Hs'.
    split; [|split].
    + intros r1 r2 H1 H2.
      now rewrite (roll_or_zero_some _ _ _ H1), (roll_or_zero_some _ _ _ H2).
    + intros r1 H1 H2.
      rewrite (roll_or_zero_some _ _ _ H1), (roll_or_zero_none _ _ H2). lia.
    + intros H1.
      assert (H2 : nth_error rs (i + 2) = None).
      { apply nth_error_None in H1. apply nth_error_None. lia. }
      now rewrite (roll_or_zero_none _ _ H1), (roll_or_zero_none _ _ H2).
  - intros Hp. apply spare_at_iff in Hp as Hp'. rewrite Hp'.
    destruct Hp as [a [b [Ha [Hb Hab]]]].
    destruct (strike_at rs i) eqn:Hs.
    + apply strike_at_iff in Hs.
      assert (b = 0) by (rewrite Ha in Hs; injection Hs as ->; lia). subst b.
      rewrite (roll_or_zero_some _ _ _ Hb). split.
      * intros r Hr. rewrite (roll_or_zero_some _ _ _ Hr). lia.
      * intros Hr. now rewrite (roll_or_zero_none _ _ Hr).
    + split.
      * intros r Hr. now rewrite (roll_or_zero_some _ _ _ Hr).
      * intros Hr. rewrite (roll_or_zero_none _ _ Hr). lia.
  - intros Hs Hp. rewrite <- strike_at_iff in Hs. rewrite <- spare_at_iff in Hp.
    apply not_true_is_false in Hs, Hp. rewrite Hs, Hp. split; [|split].
    + intros a b Ha Hb.
      now rewrite (roll_or_zero_some _ _ _ Ha), (roll_or_zero_some _ _ _ Hb).
    + intros a Ha Hb.
      rewrite (roll_or_zero_some _ _ _ Ha), (roll_or_zero_none _ _ Hb). lia.
    + intros Ha. pose proof (nth_error_none_next _ _ Ha) as Hb.
      now rewrite (roll_or_zero_none _ _ Ha), (roll_or_zero_none _ _ Hb).
Qed.

(** ** [get_frame_scores] and [score] *)

Lemma game_complete_frames_present rs :
  game_complete rs = true -> frames_present rs 9 0 = true.
Proof.
  unfold game_complete. intros H.
  apply andb_true_iff in H as [H _]. apply andb_true_iff in H as [H _].
  exact H.
Qed.

Lemma is_game_complete_true g :
  outcome is_game_complete g = Ok true <-> game_complete (rolls g) = true.
Proof.
  unfold outcome. rewrite is_game_complete_run. simpl.
  split; congruence.
Qed.

(** C5: on a complete game [get_frame_scores] returns a list of exactly
    ten entries and [score] returns their sum. *)
Theorem frame_scores_sum_to_score (g : BowlingGame)
    (Hc : outcome is_game_complete g = Ok true) :
  exists l s,
    outcome get_frame_scores g = Ok l
    /\ outcome score g = Ok s
    /\ length l = 10%nat
    /\ sum l = s.
Proof.
  apply is_game_complete_true, game_complete_frames_present in Hc.
  unfold outcome. rewrite get_frame_scores_run, score_run, Hc.
  eexists. eexists. split; [reflexivity|]. split; [reflexivity|]. split.
  - rewrite length_app, frame_values_length. reflexivity.
  - rewrite sum_app. unfold sum at 2. simpl. lia.
Qed.

Lemma frame_scores_sum_to_score_witness :
  exists l s,
    outcome get_frame_scores (fields_after (roll_times 12 (VInt 10)) init) = Ok l
    /\ outcome score (fields_after (roll_times 12 (VInt 10)) init) = Ok s
    /\ length l = 10%nat
    /\ sum l = s.
Proof.
  apply (frame_scores_sum_to_score (fields_after (roll_times 12 (VInt 10)) init)).
  reflexivity.
Defined.

Lemma frame_values_nth rs frames : forall i k,
  (k <= frames)%nat ->
  nth_error (frame_values rs frames i
             ++ [frame_value rs (cursor_after rs frames i)]) k
  = Some (frame_value rs (cursor_after rs k i)).
Proof.
  induction frames as [|n IH]; intros i k Hk.
  - assert (k = 0)%nat by lia. now subst.
  - destruct k as [|k]; [reflexivity|].
    cbn [frame_values cursor_after app nth_error]. apply IH. lia.
Qed.

(** C9: on every roll list [get_frame_scores] returns normally, changes
    nothing, and its result has exactly ten entries; the entry of an open
    frame at cursor [c] is the roll at [c] plus the roll at [c+1], an
    absent roll counting as 0. *)
Theorem get_frame_scores_total (g : BowlingGame) :
  let rs := rolls g in
  exists l,
    get_frame_scores g = (Ok l, g)
    /\ length l = 10%nat
    /\ forall k, (k < 10)%nat ->
         let c := cursor_after rs k 0 in
         strike_at rs c = false -> spare_at rs c = false ->
         nth_error l k = Some (roll_or_zero rs c + roll_or_zero rs (c + 1)).
Proof.
  intros rs. eexists. split; [apply get_frame_scores_run|]. split.
  - rewrite length_app, frame_values_length. reflexivity.
  - intros k Hk c Hs Hp. fold rs.
    rewrite frame_values_nth by lia. fold c.
    unfold frame_value. now rewrite Hs, Hp.
Qed.

(** ** Completeness is terminal *)

Section Append.

Variables (rs tl : list Z).

Lemma nth_error_app_present i :
  (i < length rs)%nat -> nth_error (rs ++ tl) i = nth_error rs i.
Proof. intros H. now apply nth_error_app1. Qed.

Lemma strike_at_app i :
  (i < length rs)%nat -> strike_at (rs ++ tl) i = strike_at rs i.
Proof.
  intros H. unfold strike_at. now rewrite nth_error_app_present.
Qed.

Lemma spare_at_app i :
  (i + 1 < length rs)%nat -> spare_at (rs ++ tl) i = spare_at rs i.
Proof.
  intros H. unfold spare_at. now rewrite !nth_error_app_present by lia.
Qed.

Lemma frames_present_app frames : forall i,
  frames_present rs frames i = true ->
  frames_present (rs ++ tl) frames i = true
  /\ cursor_after (rs ++ tl) frames i = cursor_after rs frames i.
Proof.
  induction frames as [|n IH]; intros i H; [now split|].
  cbn [frames_present cursor_after] in *.
  apply andb_true_iff in H as [Hi Hn].
  assert (Hlen : (i < length rs)%nat).
  { apply orb_true_iff in Hi as [Hi|Hi].
    - now apply strike_at_length.
    - apply Nat.ltb_lt in Hi. lia. }
  unfold frame_next in *. rewrite strike_at_app by exact Hlen.
  destruct (IH _ Hn) as [IH1 IH2]. rewrite IH1, IH2, andb_true_r.
  split; [|reflexivity].
  apply orb_true_iff. apply orb_true_iff in Hi as [Hi|Hi]; [now left|].
  right. apply Nat.ltb_lt. apply Nat.ltb_lt in Hi.
  rewrite length_app. lia.
Qed.

Lemma game_complete_app :
  game_complete rs = true -> game_complete (rs ++ tl) = true.
Proof.
  unfold game_complete, rolls_in_tenth. intros H.
  apply andb_true_iff in H as [H H3]. apply andb_true_iff in H as [H1 H2].
  destruct (frames_present_app 9 0 H1) as [E1 E2].
  rewrite E1, E2, andb_true_l.
  set (c := cursor_after rs 9 0) in *.
  apply Z.leb_le in H2.
  rewrite strike_at_app, spare_at_app by lia.
  rewrite length_app, Nat2Z.inj_add.
  apply andb_true_iff. split; [apply Z.leb_le; lia|].
  destruct (strike_at rs c || spare_at rs c); [|reflexivity].
  apply Z.leb_le. apply Z.leb_le in H3. lia.
Qed.

End Append.

(** C8: once [is_game_complete] returns true, a further [roll(pins)] with
    an integer 0..10 is accepted and [is_game_complete] still returns
    true; the three reading methods leave the game complete as well. *)
Theorem complete_is_terminal (g : BowlingGame) (pins : pyval) (n : Z)
    (Hc : outcome is_game_complete g = Ok true)
    (Hv : int_value pins = Some n) (Hn : 0 <= n <= 10) :
  outcome (roll pins) g = Ok tt
  /\ outcome is_game_complete (fields_after (roll pins) g) = Ok true
  /\ outcome is_game_complete (fields_after score g) = Ok true
  /\ outcome is_game_complete (fields_after get_frame_scores g) = Ok true
  /\ outcome is_game_complete (fields_after is_game_complete g) = Ok true.
Proof.
  unfold fields_after.
  rewrite get_frame_scores_run, is_game_complete_run, score_run.
  apply is_game_complete_true in Hc as Hc'.
  rewrite (game_complete_frames_present _ Hc'). cbn [snd].
  unfold outcome at 1. rewrite roll_run, Hv.
  destruct (Z.leb_spec 0 n); [|lia]. destruct (Z.leb_spec n 10); [|lia].
  cbn [andb fst snd].
  repeat (split; [try reflexivity; try exact Hc|]); try exact Hc.
  apply is_game_complete_true. cbn [rolls]. now apply game_complete_app.
Qed.

Lemma complete_is_terminal_witness :
  outcome (roll (VInt 7)) (fields_after (roll_times 12 (VInt 10)) init) = Ok tt
  /\ outcome is_game_complete
       (fields_after (roll (VInt 7))
          (fields_after (roll_times 12 (VInt 10)) init)) = Ok true.
Proof.
  pose proof (complete_is_terminal
                (fields_after (roll_times 12 (VInt 10)) init) (VInt 7) 7
                eq_refl eq_refl) as H.
  split; apply H; lia.
Defined.

(** ** The roll counter *)

(** C10: [current_roll == len(rolls)] holds for a new game and is kept by
    every method: an accepted [roll] appends one element and adds one to
    [current_roll], a rejected [roll] changes nothing, and [score],
    [get_frame_scores] and [is_game_complete] change nothing. *)
Theorem roll_count_invariant (g : BowlingGame) (pins : pyval)
    (Hg : roll_count_inv g) :
  roll_count_inv init
  /\ roll_count_inv (fields_after (roll pins) g)
  /\ (outcome (roll pins) g = Ok tt ->
      (exists n, rolls (fields_after (roll pins) g) = rolls g ++ [n])
      /\ current_roll (fields_after (roll pins) g) = current_roll g + 1)
  /\ (outcome (roll pins) g <> Ok tt -> fields_after (roll pins) g = g)
  /\ fields_after score g = g
  /\ fields_after get_frame_scores g = g
  /\ fields_after is_game_complete g = g.
Proof.
  unfold fields_after, outcome.
  rewrite get_frame_scores_run, is_game_complete_run, score_run, roll_run.
  split; [reflexivity|].
  assert (Hread :
    snd (if frames_present (rolls g) 9 0
         then (Ok (sum (frame_values (rolls g) 9 0)
                   + frame_value (rolls g) (cursor_after (rolls g) 9 0)), g)
         else (Raise IndexError, g)) = g)
    by (destruct (frames_present (rolls g) 9 0); reflexivity).
  destruct (int_value pins) as [n|].
  - destruct ((0 <=? n) && (n <=? 10)); cbn [fst snd].
    + split.
      * unfold roll_count_inv in *. cbn [rolls current_roll].
        rewrite length_app, Nat2Z.inj_add, Hg. reflexivity.
      * split; [intros _; split; [now exists n|reflexivity]|].
        split; [congruence|]. now repeat split.
    + split; [exact Hg|]. split; [discriminate|]. now repeat split.
  - cbn [fst snd]. split; [exact Hg|]. split; [discriminate|].
    now repeat split.
Qed.

Lemma roll_count_invariant_witness :
  roll_count_inv init
  /\ roll_count_inv (fields_after (roll (VInt 4)) init)
  /\ fields_after score init = init.
Proof.
  destruct (roll_count_invariant init (VInt 4) eq_refl)
    as [H0 [H1 [_ [_ [H2 _]]]]].
  exact (conj H0 (conj H1 H2)).
Defined.

(** * Further properties of the methods *)

(** ** The helpers [_is_strike], [_is_spare], [_strike_bonus], [_spare_bonus] *)

(** X1: for every cursor, inside the list or beyond its end, [_is_strike]
    and [_is_spare] return a boolean without raising and without changing
    the game; [_is_strike] is true exactly when the roll at the cursor
    exists and is 10, [_is_spare] exactly when the rolls at the cursor and
    after it both exist and add to 10. *)
Theorem strike_and_spare_tests_are_safe (g : BowlingGame) (i : nat) :
  (exists b, _is_strike i g = (Ok b, g)
             /\ (b = true <-> nth_error (rolls g) i = Some 10))
  /\ (exists b, _is_spare i g = (Ok b, g)
                /\ (b = true <->
                    exists x y, nth_error (rolls g) i = Some x
                                /\ nth_error (rolls g) (i + 1) = Some y
                                /\ x + y = 10)).
Proof.
  split.
  - exists (strike_at (rolls g) i).
    split; [apply is_strike_run|apply strike_at_iff].
  - exists (spare_at (rolls g) i).
    split; [apply is_spare_run|apply spare_at_iff].
Qed.

Lemma roll_or_zero_range rs i :
  valid_rolls rs -> 0 <= roll_or_zero rs i <= 10.
Proof.
  intros H. unfold roll_or_zero.
  destruct (nth_error rs i) as [r|] eqn:E; [|lia].
  apply nth_error_In in E. unfold valid_rolls in H.
  rewrite Forall_forall in H. now apply H.
Qed.

(** X2: for every cursor [_strike_bonus] and [_spare_bonus] return without
    raising and without changing the game.  The strike bonus is the sum of
    the rolls at [i+1] and [i+2], the spare bonus the roll at [i+2], a roll
    that does not exist counting as 0; on rolls 0..10 the strike bonus is
    at most 20 and the spare bonus at most 10. *)
Theorem bonuses_are_safe (g : BowlingGame) (i : nat) :
  _strike_bonus i g
  = (Ok (roll_or_zero (rolls g) (i + 1) + roll_or_zero (rolls g) (i + 2)), g)
  /\ _spare_bonus i g = (Ok (roll_or_zero (rolls g) (i + 2)), g)
  /\ (valid_rolls (rolls g) ->
      0 <= roll_or_zero (rolls g) (i + 1) + roll_or_zero (rolls g) (i + 2) <= 20
      /\ 0 <= roll_or_zero (rolls g) (i + 2) <= 10).
Proof.
  split; [apply strike_bonus_run|]. split; [apply spare_bonus_run|].
  intros H.
  pose proof (roll_or_zero_range _ (i + 1) H).
  pose proof (roll_or_zero_range _ (i + 2) H). lia.
Qed.

Lemma bonuses_are_safe_witness :
  0 <= roll_or_zero [10; 10; 7] (0 + 2) <= 10.
Proof.
  apply (bonuses_are_safe (mkGame [10; 10; 7] 3) 0).
  repeat constructor; lia.
Defined.

(** ** [roll] keeps the rolls in range *)

Lemma roll_keeps_valid pins g :
  valid_rolls (rolls g) -> valid_rolls (rolls (fields_after (roll pins) g)).
Proof.
  intros H. unfold fields_after. rewrite roll_run.
  destruct (int_value pins) as [n|]; [|exact H].
  destruct (Z.leb_spec 0 n); destruct (Z.leb_spec n 10); cbn [andb snd rolls];
    try exact H.
  apply Forall_app. split; [exact H|]. constructor; [lia|constructor].
Qed.

(** X3: a new game has only rolls 0..10, and [roll], whatever it is given
    and whether it accepts or rejects it, keeps it so; the rolls recorded
    before stay a prefix of the list. *)
Theorem roll_keeps_rolls_in_range (g : BowlingGame) (pins : pyval)
    (Hg : valid_rolls (rolls g)) :
  valid_rolls (rolls init)
  /\ valid_rolls (rolls (fields_after (roll pins) g))
  /\ exists tl, rolls (fields_after (roll pins) g) = rolls g ++ tl.
Proof.
  split; [constructor|]. split; [now apply roll_keeps_valid|].
  unfold fields_after. rewrite roll_run.
  destruct (int_value pins) as [n|].
  - destruct ((0 <=? n) && (n <=? 10)); cbn [snd rolls].
    + now exists [n].
    + exists []. now rewrite app_nil_r.
  - exists []. now rewrite app_nil_r.
Qed.

Lemma roll_keeps_rolls_in_range_witness :
  valid_rolls (rolls (fields_after (roll (VInt 9)) (mkGame [3; 10] 2))).
Proof.
  apply (roll_keeps_rolls_in_range (mkGame [3; 10] 2) (VInt 9)).
  repeat constructor; lia.
Defined.

(** ** How many rolls a game needs *)

Lemma cursor_after_bounds rs frames : forall i,
  (i + frames <= cursor_after rs frames i <= i + 2 * frames)%nat.
Proof.
  induction frames as [|n IH]; intros i; cbn [cursor_after]; [lia|].
  specialize (IH (frame_next rs i)). unfold frame_next in *.
  destruct (strike_at rs i); lia.
Qed.

Lemma frames_present_short rs frames i :
  (0 < frames)%nat -> (length rs < i + frames)%nat ->
  frames_present rs frames i = false.
Proof.
  intros Hn Hlen. apply frames_present_false.
  exists (frames - 1)%nat. split; [lia|].
  pose proof (cursor_after_bounds rs (frames - 1) i).
  unfold frame_lacks_roll.
  destruct (Nat.leb_spec (length rs) (cursor_after rs (frames - 1) i));
    [reflexivity|lia].
Qed.

Lemma frames_present_long rs frames i :
  (i + 2 * frames <= length rs)%nat -> frames_present rs frames i = true.
Proof.
  intros Hlen. apply frames_present_true. intros k Hk.
  pose proof (cursor_after_bounds rs k i).
  unfold frame_lacks_roll.
  destruct (Nat.leb_spec (length rs) (cursor_after rs k i)); [lia|].
  destruct (Nat.leb_spec (length rs) (cursor_after rs k i + 1)); [lia|].
  now rewrite andb_false_r.
Qed.

Lemma game_complete_long rs : (21 <= length rs)%nat -> game_complete rs = true.
Proof.
  intros Hlen. unfold game_complete, rolls_in_tenth.
  rewrite frames_present_long by (simpl; lia).
  pose proof (cursor_after_bounds rs 9 0).
  set (c := cursor_after rs 9 0) in *.
  assert (Hr : 3 <= Z.of_nat (length rs) - Z.of_nat c) by lia.
  destruct (Z.leb_spec 2 (Z.of_nat (length rs) - Z.of_nat c)); [|lia].
  destruct (Z.leb_spec 3 (Z.of_nat (length rs) - Z.of_nat c)); [|lia].
  now destruct (strike_at rs c || spare_at rs c).
Qed.

Lemma game_complete_short rs : (length rs < 11)%nat -> game_complete rs = false.
Proof.
  intros Hlen. unfold game_complete, rolls_in_tenth.
  destruct (frames_present rs 9 0); [|reflexivity].
  pose proof (cursor_after_bounds rs 9 0).
  destruct (Z.leb_spec 2 (Z.of_nat (length rs) - Z.of_nat (cursor_after rs 9 0)));
    [lia|reflexivity].
Qed.

(** X4: [is_game_complete] returns false on every game of fewer than 11
    rolls and true on every game of 21 rolls or more, whatever the rolls
    are. *)
Theorem complete_between_11_and_21_rolls (g : BowlingGame) :
  ((length (rolls g) < 11)%nat -> outcome is_game_complete g = Ok false)
  /\ ((21 <= length (rolls g))%nat -> outcome is_game_complete g = Ok true).
Proof.
  unfold outcome. rewrite is_game_complete_run. cbn [fst]. split; intros H.
  - now rewrite game_complete_short.
  - now rewrite game_complete_long.
Qed.

Lemma complete_between_11_and_21_rolls_witness :
  outcome is_game_complete (mkGame [10; 3; 4] 3) = Ok false.
Proof.
  apply (complete_between_11_and_21_rolls (mkGame [10; 3; 4] 3)).
  simpl. lia.
Defined.

(** X5: [score] raises [IndexError] exactly when one of frames 1-9, found
    by advancing the cursor by 1 after a strike and by 2 otherwise, needs a
    roll that does not exist, and it raises no other exception.  So it
    raises on every game of fewer than 9 rolls and returns on every game of
    18 rolls or more. *)
Theorem score_raises_iff_frame_missing (g : BowlingGame) :
  (outcome score g = Raise IndexError
   <-> exists k, (k < 9)%nat
                 /\ frame_lacks_roll (rolls g) (cursor_after (rolls g) k 0) = true)
  /\ (forall e, outcome score g = Raise e -> e = IndexError)
  /\ ((length (rolls g) < 9)%nat -> outcome score g = Raise IndexError)
  /\ ((18 <= length (rolls g))%nat -> exists s, outcome score g = Ok s).
Proof.
  unfold outcome. rewrite score_run. split; [|split; [|split]].
  - rewrite <- frames_present_false.
    destruct (frames_present (rolls g) 9 0); cbn [fst]; split; congruence.
  - intros e. destruct (frames_present (rolls g) 9 0); cbn [fst]; congruence.
  - intros H. now rewrite frames_present_short by lia.
  - intros H. rewrite frames_present_long by (simpl; lia). eexists. reflexivity.
Qed.

Lemma score_raises_iff_frame_missing_witness :
  outcome score (mkGame [10; 10; 10; 10; 10; 10; 10; 10] 8) = Raise IndexError.
Proof.
  apply (score_raises_iff_frame_missing
           (mkGame [10; 10; 10; 10; 10; 10; 10; 10] 8)).
  simpl. lia.
Defined.

(** ** [score] against [get_frame_scores] *)

Lemma Ok_inj {A} (a b : A) : Ok a = Ok b -> a = b.
Proof. congruence. Qed.

(** X6: whenever [score] returns, on a complete game or not,
    [get_frame_scores] returns ten entries whose sum is that score. *)
Theorem score_is_sum_of_frame_scores (g : BowlingGame) (s : Z)
    (Hs : outcome score g = Ok s) :
  exists l, outcome get_frame_scores g = Ok l
            /\ length l = 10%nat
            /\ sum l = s.
Proof.
  unfold outcome in *. rewrite score_run in Hs. rewrite get_frame_scores_run.
  destruct (frames_present (rolls g) 9 0); [|discriminate].
  cbn [fst] in *. apply Ok_inj in Hs. subst s.
  eexists. split; [reflexivity|]. split.
  - rewrite length_app, frame_values_length. reflexivity.
  - rewrite sum_app. unfold sum at 2. simpl. lia.
Qed.

Lemma score_is_sum_of_frame_scores_witness :
  exists l,
    outcome get_frame_scores (fields_after (roll_times 18 (VInt 1)) init) = Ok l
    /\ length l = 10%nat
    /\ sum l = 18.
Proof.
  apply (score_is_sum_of_frame_scores
           (fields_after (roll_times 18 (VInt 1)) init) 18).
  reflexivity.
Defined.

(** ** Bounds on the scores *)

Lemma frame_value_range rs i :
  valid_rolls rs -> 0 <= frame_value rs i <= 30.
Proof.
  intros H. unfold frame_value.
  pose proof (roll_or_zero_range _ i H).
  pose proof (roll_or_zero_range _ (i + 1) H).
  pose proof (roll_or_zero_range _ (i + 2) H).
  destruct (strike_at rs i); [lia|]. destruct (spare_at rs i); lia.
Qed.

Lemma frame_values_range rs frames : forall i,
  valid_rolls rs ->
  Forall (fun v => 0 <= v <= 30) (frame_values rs frames i)
  /\ 0 <= sum (frame_values rs frames i) <= 30 * Z.of_nat frames.
Proof.
  induction frames as [|n IH]; intros i H.
  - split; [constructor|]. unfold sum. simpl. lia.
  - cbn [frame_values]. destruct (IH (frame_next rs i) H) as [IH1 IH2].
    pose proof (frame_value_range _ i H).
    split; [now constructor|].
    unfold sum in *. cbn [fold_right]. lia.
Qed.

(** X7: on rolls 0..10, a score that [score] returns lies between 0 and
    300. *)
Theorem score_between_0_and_300 (g : BowlingGame) (s : Z)
    (Hv : valid_rolls (rolls g)) (Hs : outcome score g = Ok s) :
  0 <= s <= 300.
Proof.
  unfold outcome in Hs. rewrite score_run in Hs.
  destruct (frames_present (rolls g) 9 0); [|discriminate].
  cbn [fst] in Hs. apply Ok_inj in Hs. subst s.
  pose proof (proj2 (frame_values_range _ 9 0%nat Hv)).
  pose proof (frame_value_range _ (cursor_after (rolls g) 9 0) Hv). lia.
Qed.

Lemma score_between_0_and_300_witness :
  outcome score (mkGame [10; 10; 10; 10; 10; 10; 10; 10; 10; 2; 3] 11) = Ok 252
  /\ 0 <= 252 <= 300.
Proof.
  split; [reflexivity|].
  apply (score_between_0_and_300
           (mkGame [10; 10; 10; 10; 10; 10; 10; 10; 10; 2; 3] 11) 252).
  - repeat constructor; lia.
  - reflexivity.
Defined.

(** X8: on rolls 0..10, each of the ten entries of [get_frame_scores] lies
    between 0 and 30. *)
Theorem frame_scores_between_0_and_30 (g : BowlingGame)
    (Hv : valid_rolls (rolls g)) :
  exists l, outcome get_frame_scores g = Ok l
            /\ Forall (fun v => 0 <= v <= 30) l.
Proof.
  unfold outcome. rewrite get_frame_scores_run. cbn [fst].
  eexists. split; [reflexivity|].
  apply Forall_app. split.
  - now apply frame_values_range.
  - constructor; [now apply frame_value_range|constructor].
Qed.

Lemma frame_scores_between_0_and_30_witness :
  exists l, outcome get_frame_scores (mkGame [10; 10; 10; 4] 4) = Ok l
            /\ Forall (fun v => 0 <= v <= 30) l.
Proof.
  apply (frame_scores_between_0_and_30 (mkGame [10; 10; 10; 4] 4)).
  repeat constructor; lia.
Defined.

(** ** Rolls recorded after the game is complete *)

Lemma frame_values_snoc rs frames : forall i,
  frame_values rs (S frames) i
  = frame_values rs frames i ++ [frame_value rs (cursor_after rs frames i)].
Proof.
  induction frames as [|n IH]; intros i; [reflexivity|].
  change (frame_values rs (S (S n)) i)
    with (frame_value rs i :: frame_values rs (S n) (frame_next rs i)).
  rewrite IH. reflexivity.
Qed.

Section AppendScores.

Variables (rs tl : list Z).

Lemma roll_or_zero_app i :
  (i < length rs)%nat -> roll_or_zero (rs ++ tl) i = roll_or_zero rs i.
Proof.
  intros H. unfold roll_or_zero. now rewrite nth_error_app_present.
Qed.

Lemma frame_value_app i :
  (i + 2 < length rs)%nat -> frame_value (rs ++ tl) i = frame_value rs i.
Proof.
  intros H. unfold frame_value.
  rewrite strike_at_app, spare_at_app, !roll_or_zero_app by lia.
  reflexivity.
Qed.

Lemma frame_values_app frames : forall i,
  (cursor_after rs frames i + 2 <= length rs)%nat ->
  frame_values (rs ++ tl) frames i = frame_values rs frames i
  /\ cursor_after (rs ++ tl) frames i = cursor_after rs frames i.
Proof.
  induction frames as [|n IH]; intros i H; [now split|].
  cbn [frame_values cursor_after] in *.
  pose proof (cursor_after_bounds rs n (frame_next rs i)) as Hb.
  assert (Hi : (i + 2 < length rs)%nat).
  { assert (i + 1 <= frame_next rs i)%nat
      by (unfold frame_next; destruct (strike_at rs i); lia).
    lia. }
  assert (Hnext : frame_next (rs ++ tl) i = frame_next rs i).
  { unfold frame_next. now rewrite strike_at_app by lia. }
  rewrite Hnext, frame_value_app by exact Hi.
  destruct (IH _ H) as [IH1 IH2]. now rewrite IH1, IH2.
Qed.

Lemma game_complete_scores_app :
  game_complete rs = true ->
  frames_present (rs ++ tl) 9 0 = true
  /\ frame_values (rs ++ tl) 10 0 = frame_values rs 10 0.
Proof.
  unfold game_complete, rolls_in_tenth. intros H.
  apply andb_true_iff in H as [H H3]. apply andb_true_iff in H as [H1 H2].
  apply Z.leb_le in H2.
  split; [now apply frames_present_app|].
  rewrite (frame_values_snoc (rs ++ tl) 9), (frame_values_snoc rs 9).
  destruct (frame_values_app 9 0) as [E1 E2]; [lia|].
  rewrite E1, E2. f_equal. f_equal.
  set (c := cursor_after rs 9 0) in *.
  unfold frame_value.
  rewrite strike_at_app, spare_at_app, (roll_or_zero_app c),
    (roll_or_zero_app (c + 1)) by lia.
  destruct (strike_at rs c || spare_at rs c) eqn:E.
  - apply Z.leb_le in H3. rewrite roll_or_zero_app by lia. reflexivity.
  - apply orb_false_iff in E as [-> ->]. reflexivity.
Qed.

End AppendScores.

Lemma outcome_score_frames g :
  outcome score g
  = if frames_present (rolls g) 9 0
    then Ok (sum (frame_values (rolls g) 10 0))
    else Raise IndexError.
Proof.
  unfold outcome. rewrite score_run, (frame_values_snoc _ 9), sum_app.
  destruct (frames_present (rolls g) 9 0); [|reflexivity].
  cbn [fst]. f_equal. unfold sum at 3. cbn [fold_right]. lia.
Qed.

Lemma outcome_get_frame_scores g :
  outcome get_frame_scores g = Ok (frame_values (rolls g) 10 0).
Proof.
  unfold outcome. now rewrite get_frame_scores_run, (frame_values_snoc _ 9).
Qed.

Lemma complete_game_scores_app g g' tl :
  game_complete (rolls g) = true -> rolls g' = rolls g ++ tl ->
  outcome score g' = outcome score g
  /\ outcome get_frame_scores g' = outcome get_frame_scores g.
Proof.
  intros Hc E.
  destruct (game_complete_scores_app (rolls g) tl Hc) as [H1 H2].
  rewrite !outcome_score_frames, !outcome_get_frame_scores, E, H1, H2.
  now rewrite (game_complete_frames_present _ Hc).
Qed.

(** X9: once [is_game_complete] returns true, a further [roll], accepted
    or rejected, changes neither what [score] returns nor what
    [get_frame_scores] returns: rolls recorded after the end of the game
    are never read. *)
Theorem later_rolls_do_not_change_scores (g : BowlingGame) (pins : pyval)
    (Hc : outcome is_game_complete g = Ok true) :
  outcome score (fields_after (roll pins) g) = outcome score g
  /\ outcome get_frame_scores (fields_after (roll pins) g)
     = outcome get_frame_scores g.
Proof.
  apply is_game_complete_true in Hc.
  assert (E : exists tl, rolls (fields_after (roll pins) g) = rolls g ++ tl).
  { unfold fields_after. rewrite roll_run.
    destruct (int_value pins) as [n|].
    - destruct ((0 <=? n) && (n <=? 10)); cbn [snd rolls].
      + now exists [n].
      + exists []. now rewrite app_nil_r.
    - exists []. now rewrite app_nil_r. }
  destruct E as [tl E]. now apply (complete_game_scores_app g _ tl).
Qed.

Lemma later_rolls_do_not_change_scores_witness :
  outcome score
    (fields_after (roll (VInt 7)) (fields_after (roll_times 12 (VInt 10)) init))
  = outcome score (fields_after (roll_times 12 (VInt 10)) init).
Proof.
  apply (later_rolls_do_not_change_scores
           (fields_after (roll_times 12 (VInt 10)) init) (VInt 7)).
  reflexivity.
Defined.

(** X10: on a game of 21 rolls or more, [score] and [get_frame_scores]
    return what they return on its first 21 rolls alone. *)
Theorem scores_read_at_most_21_rolls (g : BowlingGame)
    (Hlen : (21 <= length (rolls g))%nat) :
  outcome score g = outcome score (mkGame (firstn 21 (rolls g)) 21)
  /\ outcome get_frame_scores g
     = outcome get_frame_scores (mkGame (firstn 21 (rolls g)) 21).
Proof.
  apply (complete_game_scores_app _ g (skipn 21 (rolls g))).
  - apply game_complete_long. cbn [rolls]. rewrite length_firstn. lia.
  - cbn [rolls]. now rewrite firstn_skipn.
Qed.

Lemma scores_read_at_most_21_rolls_witness :
  outcome score (fields_after (roll_times 25 (VInt 5)) init) = Ok 150.
Proof.
  destruct (scores_read_at_most_21_rolls
              (fields_after (roll_times 25 (VInt 5)) init)) as [H _].
  - vm_compute. lia.
  - rewrite H. vm_compute. reflexivity.
Defined.

(** ** Games of open frames *)

Lemma sum_firstn_skipn_step (rs : list Z) : forall i m,
  sum (firstn (S m) (skipn i rs))
  = roll_or_zero rs i + sum (firstn m (skipn (S i) rs)).
Proof.
  induction rs as [|a rs IH]; intros i m.
  - unfold roll_or_zero. destruct i; cbn [skipn firstn nth_error];
      now rewrite firstn_nil.
  - destruct i as [|i].
    + reflexivity.
    + change (skipn (S i) (a :: rs)) with (skipn i rs).
      change (skipn (S (S i)) (a :: rs)) with (skipn (S i) rs).
      change (roll_or_zero (a :: rs) (S i)) with (roll_or_zero rs i).
      apply IH.
Qed.

Lemma roll_or_zero_not_strike rs i :
  roll_or_zero rs i <> 10 -> strike_at rs i = false.
Proof.
  intros H. apply not_true_is_false. intros Hs.
  apply strike_at_iff in Hs. apply H. now apply roll_or_zero_some.
Qed.

Lemma roll_or_zero_not_spare rs i :
  roll_or_zero rs i + roll_or_zero rs (i + 1) <> 10 -> spare_at rs i = false.
Proof.
  intros H. apply not_true_is_false. intros Hs.
  apply spare_at_iff in Hs as [a [b [Ha [Hb Hab]]]]. apply H.
  now rewrite (roll_or_zero_some _ _ _ Ha), (roll_or_zero_some _ _ _ Hb).
Qed.

Lemma open_frames_sum rs frames : forall i,
  (forall k, (k < frames)%nat ->
     roll_or_zero rs (i + 2 * k) <> 10
     /\ roll_or_zero rs (i + 2 * k) + roll_or_zero rs (i + 2 * k + 1) <> 10) ->
  sum (frame_values rs frames i) = sum (firstn (2 * frames) (skipn i rs)).
Proof.
  induction frames as [|n IH]; intros i H; [reflexivity|].
  cbn [frame_values].
  destruct (H 0%nat ltac:(lia)) as [H1 H2].
  replace (i + 2 * 0)%nat with i in H1, H2 by lia.
  unfold frame_value, frame_next.
  rewrite (roll_or_zero_not_strike _ _ H1), (roll_or_zero_not_spare _ _ H2).
  replace (2 * S n)%nat with (S (S (2 * n))) by lia.
  rewrite !sum_firstn_skipn_step.
  replace (S (S i)) with (i + 2)%nat by lia.
  replace (S i) with (i + 1)%nat by lia.
  rewrite <- IH.
  - unfold sum. cbn [fold_right]. lia.
  - intros k Hk. specialize (H (S k) ltac:(lia)).
    replace (i + 2 * S k)%nat with (i + 2 + 2 * k)%nat in H by lia.
    exact H.
Qed.

(** X11: on a game of exactly 20 rolls whose ten pairs of rolls are all
    open frames (the first roll of a pair is not 10 and the pair does not
    add to 10), [is_game_complete] returns true and [score] returns the
    plain sum of the rolls. *)
Theorem open_game_scores_sum_of_rolls (g : BowlingGame)
    (Hlen : length (rolls g) = 20%nat)
    (Hopen : forall k, (k < 10)%nat ->
       roll_or_zero (rolls g) (2 * k) <> 10
       /\ roll_or_zero (rolls g) (2 * k) + roll_or_zero (rolls g) (2 * k + 1)
          <> 10) :
  outcome is_game_complete g = Ok true
  /\ outcome score g = Ok (sum (rolls g)).
Proof.
  assert (Hp : frames_present (rolls g) 9 0 = true)
    by (apply frames_present_long; simpl; lia).
  assert (Hc : forall k, (k <= 9)%nat -> cursor_after (rolls g) k 0 = (2 * k)%nat).
  { intros k. induction k as [|k IHk]; intros Hk; [reflexivity|].
    assert (E : forall n i, cursor_after (rolls g) (S n) i
                = frame_next (rolls g) (cursor_after (rolls g) n i)).
    { intros n. induction n as [|n IHn]; intros i; [reflexivity|].
      change (cursor_after (rolls g) (S (S n)) i)
        with (cursor_after (rolls g) (S n) (frame_next (rolls g) i)).
      now rewrite IHn. }
    rewrite E, IHk by lia. unfold frame_next.
    rewrite (roll_or_zero_not_strike _ _ (proj1 (Hopen k ltac:(lia)))). lia. }
  split.
  - apply is_game_complete_true. unfold game_complete, rolls_in_tenth.
    rewrite Hp, (Hc 9%nat) by lia. rewrite Hlen.
    destruct (Hopen 9%nat ltac:(lia)) as [H1 H2].
    rewrite (roll_or_zero_not_strike _ _ H1), (roll_or_zero_not_spare _ _ H2).
    reflexivity.
  - rewrite outcome_score_frames, Hp. f_equal.
    rewrite open_frames_sum by (intros k Hk; apply (Hopen k Hk)).
    cbn [skipn]. rewrite firstn_all2 by lia. reflexivity.
Qed.

Lemma open_game_scores_sum_of_rolls_witness :
  outcome score
    (mkGame [9; 0; 8; 1; 7; 2; 6; 3; 5; 4; 4; 4; 3; 3; 2; 2; 1; 1; 0; 0] 20)
  = Ok 65.
Proof.
  apply (open_game_scores_sum_of_rolls
    (mkGame [9; 0; 8; 1; 7; 2; 6; 3; 5; 4; 4; 4; 3; 3; 2; 2; 1; 1; 0; 0] 20)
    eq_refl).
  intros k Hk.
  do 10 (destruct k as [|k]; [vm_compute; split; discriminate|]). lia.
Defined.

(** ** The perfect score *)

Lemma roll_or_zero_ten rs i :
  roll_or_zero rs i = 10 -> nth_error rs i = Some 10.
Proof.
  unfold roll_or_zero. destruct (nth_error rs i); [congruence|discriminate].
Qed.

Lemma frame_value_thirty rs i :
  valid_rolls rs -> frame_value rs i = 30 ->
  strike_at rs i = true
  /\ nth_error rs (i + 1) = Some 10 /\ nth_error rs (i + 2) = Some 10.
Proof.
  intros Hv. unfold frame_value.
  pose proof (roll_or_zero_range _ i Hv).
  pose proof (roll_or_zero_range _ (i + 1) Hv).
  pose proof (roll_or_zero_range _ (i + 2) Hv).
  destruct (strike_at rs i).
  - intros E. split; [reflexivity|]. split; apply roll_or_zero_ten; lia.
  - destruct (spare_at rs i); lia.
Qed.

Lemma frame_values_all_thirty rs frames : forall i,
  valid_rolls rs ->
  sum (frame_values rs (S frames) i) = 30 * Z.of_nat (S frames) ->
  forall j, (j < frames + 3)%nat -> nth_error rs (i + j) = Some 10.
Proof.
  induction frames as [|n IH]; intros i Hv Hs j Hj.
  - unfold sum in Hs. cbn [frame_values fold_right] in Hs.
    destruct (frame_value_thirty rs i Hv) as [H0 [H1 H2]]; [lia|].
    apply strike_at_iff in H0.
    destruct j as [|[|[|j]]]; try lia.
    + now rewrite Nat.add_0_r.
    + exact H1.
    + exact H2.
  - change (frame_values rs (S (S n)) i)
      with (frame_value rs i :: frame_values rs (S n) (frame_next rs i)) in Hs.
    unfold sum in Hs. cbn [fold_right] in Hs. fold (sum (frame_values rs (S n) (frame_next rs i))) in Hs.
    pose proof (frame_value_range rs i Hv).
    pose proof (proj2 (frame_values_range rs (S n) (frame_next rs i) Hv)).
    destruct (frame_value_thirty rs i Hv) as [Hst _]; [lia|].
    assert (Hrest : sum (frame_values rs (S n) (frame_next rs i))
                    = 30 * Z.of_nat (S n)) by lia.
    unfold frame_next in Hrest. rewrite Hst in Hrest.
    apply strike_at_iff in Hst.
    destruct j as [|j].
    + now rewrite Nat.add_0_r.
    + replace (i + S j)%nat with (i + 1 + j)%nat by lia.
      apply (IH (i + 1)%nat Hv Hrest). lia.
Qed.

Lemma firstn_all_equal (rs : list Z) v : forall n,
  (forall j, (j < n)%nat -> nth_error rs j = Some v) ->
  rs = repeat v n ++ skipn n rs.
Proof.
  intros n. revert rs. induction n as [|n IH]; intros rs H; [reflexivity|].
  destruct rs as [|a rs].
  - specialize (H 0%nat ltac:(lia)). discriminate.
  - pose proof (H 0%nat ltac:(lia)) as H0. injection H0 as ->.
    cbn [repeat skipn app]. f_equal. apply IH.
    intros j Hj. apply (H (S j)). lia.
Qed.

(** X12: on rolls 0..10, [score] returns 300 exactly when the first
    twelve rolls exist and are all 10; rolls recorded after them make no
    difference. *)
Theorem score_300_iff_twelve_strikes (g : BowlingGame)
    (Hv : valid_rolls (rolls g)) :
  outcome score g = Ok 300
  <-> forall j, (j < 12)%nat -> nth_error (rolls g) j = Some 10.
Proof.
  split.
  - intros Hs. rewrite outcome_score_frames in Hs.
    destruct (frames_present (rolls g) 9 0); [|discriminate].
    apply Ok_inj in Hs.
    intros j Hj. apply (frame_values_all_thirty (rolls g) 9 0 Hv); [|lia].
    rewrite Hs. reflexivity.
  - intros H. apply firstn_all_equal in H.
    destruct (complete_game_scores_app
                (mkGame (repeat 10 12) 12) g (skipn 12 (rolls g)))
      as [E _]; [reflexivity|exact H|].
    rewrite E. reflexivity.
Qed.

Lemma score_300_iff_twelve_strikes_witness :
  nth_error (rolls (fields_after (roll_times 12 (VInt 10)) init)) 11 = Some 10.
Proof.
  apply (proj1 (score_300_iff_twelve_strikes
                  (fields_after (roll_times 12 (VInt 10)) init)
                  ltac:(repeat constructor; lia))
               eq_refl 11%nat).
  lia.
Defined.
